(** * Barge-in classification of [examples/voice_agents/basic_agent.py]

    A shallow embedding of the decision core of the voice agent: the
    module globals ([agent_is_speaking], [IGNORE_WORDS],
    [INTERRUPT_WORDS]), the two lifecycle handlers [on_enter] and
    [on_response_complete], and the transcription hook [on_message].

    Python strings are sequences of Unicode code points.  The only parts
    of the Python runtime the hook relies on are [str.lower], and the
    whitespace predicate behind [str.strip] and [str.split]; the general
    theorems hold for every choice of these two, and a concrete instance
    is used to run the examples. *)

From Stdlib Require Import List Arith NArith Bool Lia.
From Stdlib Require Strings.String.
From Stdlib Require Import Strings.Ascii.
Import ListNotations String.StringSyntax.
Delimit Scope string_scope with string.

Set Implicit Arguments.

(** ** Python strings *)

Definition char := N.
Definition str := list char.

(** An ASCII literal of the source, as its code points. *)
Definition py (s : String.string) : str :=
  map N_of_ascii (String.list_ascii_of_string s).
Arguments py s%_string.

(** [a == b] on [str]. *)
Fixpoint str_eqb (a b : str) : bool :=
  match a, b with
  | [], [] => true
  | x :: a', y :: b' => N.eqb x y && str_eqb a' b'
  | _, _ => false
  end.

(** [x in xs] on a list of [str]: equality with some element. *)
Definition list_contains (x : str) (xs : list str) : bool :=
  existsb (str_eqb x) xs.

(** [text.startswith(word)]: the first step of the substring search. *)
Fixpoint startswith (text word : str) {struct word} : bool :=
  match word, text with
  | [], _ => true
  | _ :: _, [] => false
  | x :: word', y :: text' => N.eqb x y && startswith text' word'
  end.

(** [word in text] on [str]: [word] occurs at some offset of [text]. *)
Fixpoint str_contains (word text : str) : bool :=
  startswith text word ||
  match text with
  | [] => false
  | _ :: text' => str_contains word text'
  end.

(** The mathematical reading of [word in text]. *)
Definition substring (word text : str) : Prop :=
  exists before after, text = before ++ word ++ after.

(** The part of the runtime taken as given: [str.lower] and the
    whitespace test [Py_UNICODE_ISSPACE] used by [strip] and [split]. *)
Class StrRuntime := {
  lower : str -> str;
  isspace : char -> bool
}.

Section Normalisation.
Context {rt : StrRuntime}.

(** [s.lstrip()] *)
Fixpoint lstrip (s : str) : str :=
  match s with
  | [] => []
  | c :: s' => if isspace c then lstrip s' else s
  end.

(** [s.rstrip()] *)
Fixpoint rstrip (s : str) : str :=
  match s with
  | [] => []
  | c :: s' =>
      match rstrip s' with
      | [] => if isspace c then [] else [c]
      | r => c :: r
      end
  end.

(** [s.strip()]: both ends. *)
Definition strip (s : str) : str := rstrip (lstrip s).

(** The scanning loop of [s.split()]: [tok] is the run of non-blank
    characters read so far, most recent first. *)
Fixpoint split_from (tok : str) (s : str) : list str :=
  match s with
  | [] => match tok with [] => [] | _ => [rev tok] end
  | c :: s' =>
      if isspace c
      then match tok with
           | [] => split_from [] s'
           | _ => rev tok :: split_from [] s'
           end
      else split_from (c :: tok) s'
  end.

(** [s.split()]: maximal runs of non-blank characters. *)
Definition split (s : str) : list str := split_from [] s.

End Normalisation.

(** ** Module state and effects *)

(** The lines written through [logger.info], one constructor per call
    site of the source. *)
Inductive LogRecord : Type :=
| AgentStartedSpeaking       (* "Agent started speaking" *)
| AgentFinishedSpeaking      (* "Agent finished speaking" *)
| UserSaid (text : str) (speaking interrupt soft_only : bool)
                             (* "User said: '..' | speaking=.. | interrupt=.. | soft_only=.." *)
| RealInterruption           (* "REAL INTERRUPTION (agent will stop)" *)
| PassiveAcknowledgement     (* "PASSIVE ACKNOWLEDGEMENT (ignored)" *)
| SemanticInterruption       (* "SEMANTIC INTERRUPTION" *)
| AgentSilent                (* "Agent silent, processing normally" *)
| LookingUpWeather (location : str).
                             (* "Looking up weather for .." *)

(** What a handler does to the outside world. *)
Inductive Effect : Type :=
| LoggerInfo (r : LogRecord)   (* logger.info(..) *)
| GenerateReply.               (* self.session.generate_reply() *)

(** The module-level variables the handlers read and write. *)
Record Globals : Type := mkGlobals {
  agent_is_speaking : bool;
  IGNORE_WORDS : list str;
  INTERRUPT_WORDS : list str
}.

(** The globals together with the effects performed so far, oldest
    first. *)
Record State : Type := mkState {
  globals : Globals;
  trace : list Effect
}.

(** Handlers are state transformers returning a value. *)
Definition M (A : Type) : Type := State -> A * State.

Definition ret {A} (a : A) : M A := fun st => (a, st).

Definition bind {A B} (m : M A) (k : A -> M B) : M B :=
  fun st => let (a, st') := m st in k a st'.

Declare Scope py_scope.
Delimit Scope py_scope with py.
Notation "x <- m ;; k" := (bind m (fun x => k))
  (at level 61, m at next level, right associativity) : py_scope.
Notation "m ;; k" := (bind m (fun _ => k))
  (at level 61, right associativity) : py_scope.
Local Open Scope py_scope.

(** Reading a global. *)
Definition read {A} (f : Globals -> A) : M A :=
  fun st => (f (globals st), st).

(** [agent_is_speaking = b] under [global agent_is_speaking]. *)
Definition set_agent_is_speaking (b : bool) : M unit :=
  fun st =>
    (tt, mkState (mkGlobals b (IGNORE_WORDS (globals st))
                               (INTERRUPT_WORDS (globals st)))
                 (trace st)).

Definition perform (e : Effect) : M unit :=
  fun st => (tt, mkState (globals st) (trace st ++ [e])).

Definition logger_info (r : LogRecord) : M unit := perform (LoggerInfo r).

Definition run {A} (m : M A) (st : State) : A := fst (m st).
Definition exec {A} (m : M A) (st : State) : State := snd (m st).

(** ** The handlers of [MyAgent] *)

(** [on_enter]: the agent starts speaking. *)
Definition on_enter : M unit :=
  set_agent_is_speaking true ;;
  logger_info AgentStartedSpeaking ;;
  perform GenerateReply.

(** [on_response_complete]: the agent has finished speaking. *)
Definition on_response_complete : M unit :=
  set_agent_is_speaking false ;;
  logger_info AgentFinishedSpeaking.

Section Hook.
Context {rt : StrRuntime}.

(** [text = message.lower().strip()] *)
Definition text_of (message : str) : str := strip (lower message).

(** [words = text.split()] *)
Definition words_of (message : str) : list str := split (text_of message).

(** [any(word in text for word in INTERRUPT_WORDS)] *)
Definition contains_interrupt (interrupt_words : list str) (text : str) : bool :=
  existsb (fun word => str_contains word text) interrupt_words.

(** [len(words) > 0 and all(word in IGNORE_WORDS for word in words)] *)
Definition only_soft_words (ignore_words : list str) (words : list str) : bool :=
  Nat.ltb 0 (length words) &&
  forallb (fun word => list_contains word ignore_words) words.

(** [on_message]: returns [Some message] for [return message] and
    [None] for [return None]. *)
Definition on_message (message : str) : M (option str) :=
  let text := text_of message in
  let words := split text in
  interrupt_words <- read INTERRUPT_WORDS ;;
  let contains_interrupt := contains_interrupt interrupt_words text in
  ignore_words <- read IGNORE_WORDS ;;
  let only_soft_words := only_soft_words ignore_words words in
  speaking <- read agent_is_speaking ;;
  logger_info (UserSaid text speaking contains_interrupt only_soft_words) ;;
  speaking <- read agent_is_speaking ;;
  if speaking then
    if contains_interrupt then
      logger_info RealInterruption ;;
      ret (Some message)
    else if only_soft_words then
      logger_info PassiveAcknowledgement ;;
      ret None
    else
      logger_info SemanticInterruption ;;
      ret (Some message)
  else
    logger_info AgentSilent ;;
    ret (Some message).

(** [lookup_weather], the example tool. *)
Definition lookup_weather (location latitude longitude : str) : M str :=
  logger_info (LookingUpWeather location) ;;
  ret (py "sunny with a temperature of 70 degrees.").

(** ** The decision read off a call of the hook

    The hook returns either the message or [None]; which of the three
    forwarding branches was taken shows only in the line it logs last.
    The tagged decision is read off both. *)

Inductive ClassificationDecision : Type :=
| PassThrough (fragment : str)
| HardInterrupt (fragment : str)
| SemanticInterrupt (fragment : str)
| Ignore.

Definition last_logged (st : State) : option LogRecord :=
  match last (trace st) GenerateReply with
  | LoggerInfo r => Some r
  | GenerateReply => None
  end.

Definition decision_of (returned : option str) (logged : option LogRecord)
  : option ClassificationDecision :=
  match logged, returned with
  | Some AgentSilent, Some fragment => Some (PassThrough fragment)
  | Some RealInterruption, Some fragment => Some (HardInterrupt fragment)
  | Some SemanticInterruption, Some fragment => Some (SemanticInterrupt fragment)
  | Some PassiveAcknowledgement, None => Some Ignore
  | _, _ => None
  end.

Definition Classify (message : str) (st : State) : option ClassificationDecision :=
  let (returned, st') := on_message message st in
  decision_of returned (last_logged st').

End Hook.

(** ** Lifecycle *)

(** The literals of the source. *)
Definition default_IGNORE_WORDS : list str :=
  [py "yeah"; py "ok"; py "okay"; py "hmm"; py "uh-huh"; py "right"].

Definition default_INTERRUPT_WORDS : list str :=
  [py "stop"; py "wait"; py "no"; py "hold on"].

(** The state right after import. *)
Definition initial_state : State :=
  mkState (mkGlobals false default_IGNORE_WORDS default_INTERRUPT_WORDS) [].

(** The calls the session makes on the speech-state flag. *)
Inductive LifecycleCall : Type := Enter | ResponseComplete.

Definition lifecycle (c : LifecycleCall) : M unit :=
  match c with
  | Enter => on_enter
  | ResponseComplete => on_response_complete
  end.

Fixpoint lifecycles (cs : list LifecycleCall) (st : State) : State :=
  match cs with
  | [] => st
  | c :: cs' => lifecycles cs' (exec (lifecycle c) st)
  end.

(** ** A concrete runtime for the examples *)

(** [str.lower] on ASCII text: [A]..[Z] move to [a]..[z].  Code points
    from 128 on are left alone, so this agrees with Python on ASCII
    strings only. *)
Definition ascii_lower_char (c : char) : char :=
  if (65 <=? c)%N && (c <=? 90)%N then (c + 32)%N else c.

Definition ascii_lower (s : str) : str := map ascii_lower_char s.

(** The code points for which [str.isspace] holds. *)
Definition unicode_isspace (c : char) : bool :=
  ((9 <=? c) && (c <=? 13) || (28 <=? c) && (c <=? 32) ||
   (c =? 133) || (c =? 160) || (c =? 5760) ||
   (8192 <=? c) && (c <=? 8202) || (c =? 8232) || (c =? 8233) ||
   (c =? 8239) || (c =? 8287) || (c =? 12288))%N.

#[export] Instance ascii_runtime : StrRuntime :=
  {| lower := ascii_lower; isspace := unicode_isspace |}.

(** The line [on_message] logs on the branch selected by its three
    tests. *)
Definition branch_record (speaking interrupt soft_only : bool) : LogRecord :=
  if speaking then
    if interrupt then RealInterruption
    else if soft_only then PassiveAcknowledgement
    else SemanticInterruption
  else AgentSilent.

(** The same globals reached along a different history. *)
Definition state_after (cs : list LifecycleCall) : State :=
  lifecycles cs initial_state.

(** A configuration in which one word is on both lists. *)
Definition overlapping_state (speaking : bool) : State :=
  mkState (mkGlobals speaking [py "no"] [py "no"]) [].

(** The initial state with the flag set as given. *)
Definition state_with (speaking : bool) : State :=
  mkState (mkGlobals speaking default_IGNORE_WORDS default_INTERRUPT_WORDS) [].

(** ** Sessions

    The runtime calls the handlers of the agent in whatever order the
    conversation takes. *)

Inductive Call : Type :=
| OnEnter
| OnResponseComplete
| OnMessage (message : str)
| LookupWeather (location latitude longitude : str).

Definition is_lifecycle (c : Call) : bool :=
  match c with
  | OnEnter | OnResponseComplete => true
  | OnMessage _ | LookupWeather _ _ _ => false
  end.

Section Session.
Context {rt : StrRuntime}.

(** One call, its return value dropped. *)
Definition handle (c : Call) : M unit :=
  match c with
  | OnEnter => on_enter
  | OnResponseComplete => on_response_complete
  | OnMessage message => on_message message ;; ret tt
  | LookupWeather location latitude longitude =>
      lookup_weather location latitude longitude ;; ret tt
  end.

Fixpoint session (cs : list Call) (st : State) : State :=
  match cs with
  | [] => st
  | c :: cs' => session cs' (exec (handle c) st)
  end.

End Session.

(** How often [generate_reply] was called along a trace. *)
Fixpoint count_replies (t : list Effect) : nat :=
  match t with
  | [] => 0
  | GenerateReply :: t' => S (count_replies t')
  | LoggerInfo _ :: t' => count_replies t'
  end.

(** How many calls of a session are [on_enter]. *)
Fixpoint count_enters (cs : list Call) : nat :=
  match cs with
  | [] => 0
  | OnEnter :: cs' => S (count_enters cs')
  | _ :: cs' => count_enters cs'
  end.

(** The decision without the fragment it carries. *)
Inductive DecisionKind : Type :=
| IsPassThrough | IsHardInterrupt | IsSemanticInterrupt | IsIgnore.

Definition kind (d : ClassificationDecision) : DecisionKind :=
  match d with
  | PassThrough _ => IsPassThrough
  | HardInterrupt _ => IsHardInterrupt
  | SemanticInterrupt _ => IsSemanticInterrupt
  | Ignore => IsIgnore
  end.

(** The state with the given globals and nothing done yet. *)
Definition configured (speaking : bool) (ignore_words interrupt_words : list str)
  : State :=
  mkState (mkGlobals speaking ignore_words interrupt_words) [].

Example ex_yeah_okay :
  Classify (py "yeah okay") (state_with true) = Some Ignore.
Proof. reflexivity. Qed.

Example ex_meeting :
  Classify (py "what time is the meeting tomorrow") (state_with true)
  = Some (SemanticInterrupt (py "what time is the meeting tomorrow")).
Proof. reflexivity. Qed.

Example ex_no_wait_stop :
  Classify (py "no wait stop") (state_with true)
  = Some (HardInterrupt (py "no wait stop")).
Proof. reflexivity. Qed.

Example ex_nostalgic :
  Classify (py "I feel nostalgic") (state_with true)
  = Some (HardInterrupt (py "I feel nostalgic")).
Proof. reflexivity. Qed.

Example ex_silent :
  Classify (py "stop") (state_with false) = Some (PassThrough (py "stop")).
Proof. reflexivity. Qed.

(** * Properties *)

(** ** String comparison and search *)

Lemma str_eqb_eq (a b : str) : str_eqb a b = true <-> a = b.
Proof.
  revert b; induction a as [|x a IH]; intros [|y b]; simpl;
    try (split; [discriminate | discriminate]); try tauto.
  rewrite andb_true_iff, N.eqb_eq, IH.
  split; [intros [-> ->]; reflexivity | intros H; inversion H; auto].
Qed.

Lemma list_contains_In (x : str) (xs : list str) :
  list_contains x xs = true <-> In x xs.
Proof.
  unfold list_contains. rewrite existsb_exists. split.
  - intros (y & Hy & E). apply str_eqb_eq in E. subst; assumption.
  - intros H. exists x. split; [assumption | now apply str_eqb_eq].
Qed.

Lemma startswith_spec (text word : str) :
  startswith text word = true <-> exists after, text = word ++ after.
Proof.
  revert text; induction word as [|x word IH]; intros text; simpl.
  - split; [intros _; now exists text | reflexivity].
  - destruct text as [|y text].
    + split; [discriminate | intros (after & E); discriminate].
    + rewrite andb_true_iff, N.eqb_eq, IH. split.
      * intros (-> & after & ->). now exists after.
      * intros (after & E). inversion E; subst. split; [reflexivity | now exists after].
Qed.

Lemma str_contains_spec (word text : str) :
  str_contains word text = true <-> substring word text.
Proof.
  unfold substring. induction text as [|c text IH]; simpl.
  - rewrite orb_false_r, startswith_spec. split.
    + intros (after & E). now exists [], after.
    + intros (before & after & E).
      symmetry in E. apply app_eq_nil in E as (-> & E).
      now exists after.
  - rewrite orb_true_iff, startswith_spec, IH. split.
    + intros [(after & E) | (before & after & E)].
      * now exists [], after.
      * exists (c :: before), after. simpl. now rewrite E.
    + intros ([|b before] & after & E); simpl in E.
      * left. now exists after.
      * right. inversion E; subst. now exists before, after.
Qed.

(** ** Stripping and splitting *)

Section NormalisationFacts.
Context {rt : StrRuntime}.

Lemma lstrip_head (s r : str) (c : char) :
  lstrip s = c :: r -> isspace c = false.
Proof.
  induction s as [|d s IH]; simpl; [discriminate|].
  destruct (isspace d) eqn:E; [assumption|].
  intros H; inversion H; subst; assumption.
Qed.

Lemma rstrip_head (s r : str) (c : char) :
  rstrip s = c :: r -> exists s', s = c :: s'.
Proof.
  destruct s as [|d s]; simpl; [discriminate|].
  destruct (rstrip s); [destruct (isspace d)|]; intros H;
    try discriminate; inversion H; subst; now exists s.
Qed.

Lemma strip_head (s r : str) (c : char) :
  strip s = c :: r -> isspace c = false.
Proof.
  unfold strip. intros H.
  destruct (rstrip_head _ H) as (s' & E).
  exact (lstrip_head _ E).
Qed.

(** What [lstrip] removes is blank, and what is left is a suffix. *)
Lemma lstrip_spec (s : str) :
  exists blanks, s = blanks ++ lstrip s /\ forallb isspace blanks = true.
Proof.
  induction s as [|c s (blanks & E & B)]; simpl.
  - now exists [].
  - destruct (isspace c) eqn:Hc.
    + exists (c :: blanks). simpl. rewrite Hc, B. split; [now f_equal | reflexivity].
    + now exists [].
Qed.

(** What [rstrip] removes is blank, and what is left is a prefix. *)
Lemma rstrip_spec (s : str) :
  exists blanks, s = rstrip s ++ blanks /\ forallb isspace blanks = true.
Proof.
  induction s as [|c s (blanks & E & B)]; simpl.
  - now exists [].
  - destruct (rstrip s) as [|d r] eqn:R.
    + destruct (isspace c) eqn:Hc.
      * exists (c :: blanks). simpl in *. rewrite Hc, B. subst s. now split.
      * exists blanks. simpl in *. subst s. now split.
    + exists blanks. split; [|assumption]. simpl. now f_equal.
Qed.

(** The stripped text does not end in a blank either. *)
Lemma rstrip_last (s r : str) (c : char) :
  rstrip s = r ++ [c] -> isspace c = false.
Proof.
  revert r; induction s as [|d s IH]; intros r; simpl.
  - destruct r; discriminate.
  - destruct (rstrip s) as [|e t] eqn:R.
    + destruct (isspace d) eqn:Hd; [destruct r; discriminate|].
      destruct r as [|x [|y r]]; simpl; intros H; inversion H; subst; assumption.
    + destruct r as [|x r]; simpl; intros H; inversion H; subst; eauto.
Qed.

Lemma split_from_nil (tok s : str) :
  split_from tok s = [] <-> tok = [] /\ forallb isspace s = true.
Proof.
  revert tok; induction s as [|c s IH]; intros tok; simpl.
  - destruct tok; split; try tauto; try discriminate.
    intros [H _]; discriminate.
  - destruct (isspace c) eqn:Hc; simpl.
    + destruct tok.
      * rewrite IH. tauto.
      * split; [discriminate | intros [H _]; discriminate].
    + rewrite IH. split; [intros [H _]; discriminate | intros [_ H]; discriminate].
Qed.

Lemma split_nil (s : str) : split s = [] <-> forallb isspace s = true.
Proof. unfold split. rewrite split_from_nil. tauto. Qed.

(** A text with no token is, once stripped, the empty string. *)
Lemma strip_no_words (s : str) : split (strip s) = [] -> strip s = [].
Proof.
  intros H. apply split_nil in H.
  destruct (strip s) as [|c r] eqn:E; [reflexivity|].
  apply strip_head in E. simpl in H. rewrite E in H. discriminate.
Qed.

(** Every token is a non-empty run of non-blank characters. *)
Lemma split_from_tokens (tok s : str) :
  forallb (fun c => negb (isspace c)) tok = true ->
  Forall (fun w => w <> [] /\ forallb (fun c => negb (isspace c)) w = true)
         (split_from tok s).
Proof.
  assert (Hrev : forall x t, forallb (fun c => negb (isspace c)) (x :: t) = true ->
            rev (x :: t) <> [] /\
            forallb (fun c => negb (isspace c)) (rev (x :: t)) = true).
  { intros x t H. split.
    - intros E. apply (f_equal (@rev char)) in E.
      rewrite rev_involutive in E. discriminate.
    - rewrite forallb_forall in *. intros y Hy. apply H. now apply in_rev. }
  revert tok; induction s as [|c s IH]; intros tok Htok; simpl.
  - destruct tok as [|x tok]; constructor; [now apply Hrev | constructor].
  - destruct (isspace c) eqn:Hc.
    + destruct tok as [|x tok]; [now apply IH|].
      constructor; [now apply Hrev | now apply IH].
    + apply IH. simpl. now rewrite Hc.
Qed.

Lemma split_tokens (s : str) :
  Forall (fun w => w <> [] /\ forallb (fun c => negb (isspace c)) w = true)
         (split s).
Proof. now apply split_from_tokens. Qed.

End NormalisationFacts.

(** ** The hook, branch by branch *)

Section HookFacts.
Context {rt : StrRuntime}.

Lemma contains_interrupt_spec (interrupt_words : list str) (text : str) :
  contains_interrupt interrupt_words text = true <->
  exists word, In word interrupt_words /\ substring word text.
Proof.
  unfold contains_interrupt. rewrite existsb_exists.
  split; intros (w & Hin & Hw); exists w; split; try assumption;
    now apply str_contains_spec.
Qed.

Lemma contains_interrupt_false (interrupt_words : list str) (text : str) :
  (forall word, In word interrupt_words -> ~ substring word text) ->
  contains_interrupt interrupt_words text = false.
Proof.
  intros H. destruct (contains_interrupt interrupt_words text) eqn:E; [|reflexivity].
  apply contains_interrupt_spec in E as (w & Hin & Hw).
  destruct (H w Hin Hw).
Qed.

Lemma only_soft_words_spec (ignore_words words : list str) :
  only_soft_words ignore_words words = true <->
  words <> [] /\ Forall (fun word => In word ignore_words) words.
Proof.
  unfold only_soft_words.
  rewrite andb_true_iff, forallb_forall, Forall_forall, Nat.ltb_lt.
  split; intros [Hlen Hall]; split.
  - intros ->. simpl in Hlen. lia.
  - intros w Hw. now apply list_contains_In, Hall.
  - destruct words; [contradiction | simpl; lia].
  - intros w Hw. now apply list_contains_In, Hall.
Qed.

(** One call of [on_message]: what it returns, and the state it
    leaves. *)
Lemma on_message_unfold (message : str) (st : State) :
  let text := text_of message in
  let speaking := agent_is_speaking (globals st) in
  let interrupt := contains_interrupt (INTERRUPT_WORDS (globals st)) text in
  let soft_only := only_soft_words (IGNORE_WORDS (globals st)) (split text) in
  on_message message st =
  (if speaking && negb interrupt && soft_only then None else Some message,
   mkState (globals st)
           ((trace st ++ [LoggerInfo (UserSaid text speaking interrupt soft_only)])
            ++ [LoggerInfo (branch_record speaking interrupt soft_only)])).
Proof.
  intros text speaking interrupt soft_only.
  unfold on_message, bind, read, logger_info, perform, ret. simpl.
  fold text. fold speaking. fold interrupt. fold soft_only.
  destruct speaking, interrupt, soft_only; reflexivity.
Qed.

Lemma last_logged_snoc (g : Globals) (t : list Effect) (r : LogRecord) :
  last_logged (mkState g (t ++ [LoggerInfo r])) = Some r.
Proof. unfold last_logged. simpl. now rewrite last_last. Qed.

(** The decision, from the three tests of the hook. *)
Lemma Classify_unfold (message : str) (st : State) :
  Classify message st =
  Some (if agent_is_speaking (globals st) then
          if contains_interrupt (INTERRUPT_WORDS (globals st)) (text_of message)
          then HardInterrupt message
          else if only_soft_words (IGNORE_WORDS (globals st)) (words_of message)
               then Ignore
               else SemanticInterrupt message
        else PassThrough message).
Proof.
  unfold Classify, words_of. rewrite on_message_unfold, last_logged_snoc.
  destruct (agent_is_speaking (globals st)),
           (contains_interrupt _ _), (only_soft_words _ _); reflexivity.
Qed.

Lemma run_on_message (message : str) (st : State) :
  run (on_message message) st =
  if agent_is_speaking (globals st)
     && negb (contains_interrupt (INTERRUPT_WORDS (globals st)) (text_of message))
     && only_soft_words (IGNORE_WORDS (globals st)) (words_of message)
  then None else Some message.
Proof. unfold run, words_of. now rewrite on_message_unfold. Qed.

End HookFacts.

(** ** The speech-state flag *)

Lemma exec_on_enter (st : State) :
  globals (exec on_enter st)
  = mkGlobals true (IGNORE_WORDS (globals st)) (INTERRUPT_WORDS (globals st)).
Proof. reflexivity. Qed.

Lemma exec_on_response_complete (st : State) :
  globals (exec on_response_complete st)
  = mkGlobals false (IGNORE_WORDS (globals st)) (INTERRUPT_WORDS (globals st)).
Proof. reflexivity. Qed.

(** Lifecycle calls never touch the word lists. *)
Lemma lifecycles_word_lists (cs : list LifecycleCall) (st : State) :
  IGNORE_WORDS (globals (lifecycles cs st)) = IGNORE_WORDS (globals st) /\
  INTERRUPT_WORDS (globals (lifecycles cs st)) = INTERRUPT_WORDS (globals st).
Proof.
  revert st; induction cs as [|c cs IH]; intros st; simpl; [now split|].
  destruct (IH (exec (lifecycle c) st)) as [-> ->].
  destruct c; now split.
Qed.

(** ** Classification *)

Section Classification.
Context {rt : StrRuntime}.

(** C1.  While the agent is silent the hook returns the message it was
    given, on the "agent silent" branch, whatever the message and
    whatever the two word lists hold. *)
Theorem silent_pass_through (message : str) (st : State) :
  agent_is_speaking (globals st) = false ->
  run (on_message message) st = Some message /\
  Classify message st = Some (PassThrough message).
Proof.
  intros Hsilent.
  rewrite run_on_message, Classify_unfold, Hsilent. now split.
Qed.

(** C2.  While the agent is speaking, a message whose lowercased,
    stripped text has an entry of [INTERRUPT_WORDS] as a substring, at
    any offset, is a hard interrupt: the message is returned on the
    "real interruption" branch.  Nothing is asked of the tokens, so this
    covers the messages all of whose tokens are in [IGNORE_WORDS]. *)
Theorem interrupt_precedence (message word : str) (st : State) :
  agent_is_speaking (globals st) = true ->
  In word (INTERRUPT_WORDS (globals st)) ->
  substring word (text_of message) ->
  run (on_message message) st = Some message /\
  Classify message st = Some (HardInterrupt message).
Proof.
  intros Hspeaking Hin Hsub.
  assert (Hci : contains_interrupt (INTERRUPT_WORDS (globals st)) (text_of message) = true)
    by (apply contains_interrupt_spec; now exists word).
  rewrite run_on_message, Classify_unfold, Hspeaking, Hci. now split.
Qed.

(** C3.  While the agent is speaking, a message with at least one
    token, all of whose tokens are entries of [IGNORE_WORDS], and whose
    text has no entry of [INTERRUPT_WORDS] as a substring, is ignored:
    the hook returns [None]. *)
Theorem soft_word_ignore (message : str) (st : State) :
  agent_is_speaking (globals st) = true ->
  words_of message <> [] ->
  Forall (fun token => In token (IGNORE_WORDS (globals st))) (words_of message) ->
  (forall word, In word (INTERRUPT_WORDS (globals st)) ->
                ~ substring word (text_of message)) ->
  run (on_message message) st = None /\
  Classify message st = Some Ignore.
Proof.
  intros Hspeaking Hne Hall Hno.
  assert (Hos : only_soft_words (IGNORE_WORDS (globals st)) (words_of message) = true)
    by (apply only_soft_words_spec; now split).
  rewrite run_on_message, Classify_unfold, Hspeaking, Hos,
    (contains_interrupt_false _ Hno).
  now split.
Qed.

(** C4.  While the agent is speaking, a message whose text has no entry
    of [INTERRUPT_WORDS] as a substring and whose tokens are not all
    entries of [IGNORE_WORDS] is a semantic interrupt: the message is
    returned on the "semantic interruption" branch. *)
Theorem semantic_interrupt (message : str) (st : State) :
  agent_is_speaking (globals st) = true ->
  (forall word, In word (INTERRUPT_WORDS (globals st)) ->
                ~ substring word (text_of message)) ->
  ~ Forall (fun token => In token (IGNORE_WORDS (globals st))) (words_of message) ->
  run (on_message message) st = Some message /\
  Classify message st = Some (SemanticInterrupt message).
Proof.
  intros Hspeaking Hno Hnotall.
  assert (Hos : only_soft_words (IGNORE_WORDS (globals st)) (words_of message) = false).
  { destruct (only_soft_words _ _) eqn:E; [|reflexivity].
    apply only_soft_words_spec in E as [_ Hall]. contradiction. }
  rewrite run_on_message, Classify_unfold, Hspeaking, Hos,
    (contains_interrupt_false _ Hno).
  now split.
Qed.

(** C5, as the code has it.  A message with no token is never ignored:
    the hook returns it.  While silent it is passed through; while
    speaking it is a semantic interrupt, or a hard interrupt when the
    empty string is itself an entry of [INTERRUPT_WORDS]. *)
Theorem empty_input_forwarded (message : str) (st : State) :
  words_of message = [] ->
  run (on_message message) st = Some message /\
  Classify message st =
  Some (if agent_is_speaking (globals st) then
          if list_contains [] (INTERRUPT_WORDS (globals st))
          then HardInterrupt message
          else SemanticInterrupt message
        else PassThrough message).
Proof.
  intros Hwords.
  assert (Htext : text_of message = []) by (apply strip_no_words; exact Hwords).
  assert (Hci : contains_interrupt (INTERRUPT_WORDS (globals st)) (text_of message)
                = list_contains [] (INTERRUPT_WORDS (globals st))).
  { rewrite Htext. unfold contains_interrupt, list_contains.
    induction (INTERRUPT_WORDS (globals st)) as [|w ws IH];
      cbn [existsb]; [reflexivity|].
    rewrite IH. now destruct w. }
  rewrite run_on_message, Classify_unfold, Hwords, Hci.
  unfold only_soft_words. simpl. rewrite andb_false_r.
  now split.
Qed.

(** C8.  The hook consults nothing but the message and the three
    globals: from two states with the same flag and the same word lists,
    whatever their histories, it returns the same value and the same
    decision. *)
Theorem classification_deterministic (message : str) (st1 st2 : State) :
  agent_is_speaking (globals st1) = agent_is_speaking (globals st2) ->
  IGNORE_WORDS (globals st1) = IGNORE_WORDS (globals st2) ->
  INTERRUPT_WORDS (globals st1) = INTERRUPT_WORDS (globals st2) ->
  run (on_message message) st1 = run (on_message message) st2 /\
  Classify message st1 = Classify message st2.
Proof.
  intros Hs Hig Hin.
  rewrite !run_on_message, !Classify_unfold, Hs, Hig, Hin. now split.
Qed.

(** C9.  A call of the hook leaves the flag and both word lists as they
    were; all it does besides returning is to log two lines.  The
    weather tool leaves the globals alone as well. *)
Theorem on_message_preserves_globals (message : str) (st : State) :
  globals (exec (on_message message) st) = globals st /\
  (exists user_said branch,
     trace (exec (on_message message) st)
     = trace st ++ [LoggerInfo user_said; LoggerInfo branch]) /\
  (forall location latitude longitude,
     globals (exec (lookup_weather location latitude longitude) st) = globals st).
Proof.
  unfold exec. rewrite on_message_unfold. simpl. repeat split.
  eexists _, _. rewrite <- app_assoc. reflexivity.
Qed.

(** C10.  Whenever the hook forwards something, it forwards the message
    it received, not the lowercased and stripped text it tested. *)
Theorem forwarded_fragment_verbatim
    (message fragment : str) (st : State) (d : ClassificationDecision) :
  Classify message st = Some d ->
  d = PassThrough fragment \/ d = HardInterrupt fragment \/
  d = SemanticInterrupt fragment ->
  fragment = message /\ run (on_message message) st = Some message.
Proof.
  rewrite Classify_unfold, run_on_message.
  destruct (agent_is_speaking (globals st)),
           (contains_interrupt _ _), (only_soft_words _ _); simpl;
    intros Hd; injection Hd as <-;
    intros [H | [H | H]]; try discriminate; injection H as <-; now split.
Qed.

End Classification.

(** C7.  The flag starts out false.  After any sequence of lifecycle
    calls, from any state, [on_enter] leaves it true and
    [on_response_complete] leaves it false; a repeated call leaves the
    globals as the first one did; and two starts followed by two
    completions go through speaking, speaking, silent, silent. *)
Theorem lifecycle_idempotence :
  agent_is_speaking (globals initial_state) = false /\
  (forall calls st,
      agent_is_speaking (globals (exec on_enter (lifecycles calls st))) = true) /\
  (forall calls st,
      agent_is_speaking (globals (exec on_response_complete (lifecycles calls st)))
      = false) /\
  (forall st,
      globals (exec on_enter (exec on_enter st)) = globals (exec on_enter st)) /\
  (forall st,
      globals (exec on_response_complete (exec on_response_complete st))
      = globals (exec on_response_complete st)) /\
  (forall st,
      agent_is_speaking (globals st) = true ->
      globals (exec on_enter st) = globals st) /\
  (forall st,
      agent_is_speaking (globals st) = false ->
      globals (exec on_response_complete st) = globals st) /\
  (forall st,
      agent_is_speaking (globals (lifecycles [Enter] st)) = true /\
      agent_is_speaking (globals (lifecycles [Enter; Enter] st)) = true /\
      agent_is_speaking (globals (lifecycles [Enter; Enter; ResponseComplete] st))
      = false /\
      agent_is_speaking
        (globals (lifecycles [Enter; Enter; ResponseComplete; ResponseComplete] st))
      = false).
Proof.
  repeat split.
  - intros [[speaking ignore_words interrupt_words] t]; simpl. now intros ->.
  - intros [[speaking ignore_words interrupt_words] t]; simpl. now intros ->.
Qed.

(** ** Concrete runs *)

Lemma silent_pass_through_witness :
  agent_is_speaking (globals (state_with false)) = false /\
  run (on_message (py "Stop talking")) (state_with false)
  = Some (py "Stop talking") /\
  Classify (py "Stop talking") (state_with false)
  = Some (PassThrough (py "Stop talking")).
Proof.
  split; [reflexivity|].
  apply (@silent_pass_through ascii_runtime (py "Stop talking") (state_with false)).
  reflexivity.
Defined.

(** The one token of ["No"] is on the ignore list and on the interrupt
    list; the interrupt list wins. *)
Lemma interrupt_precedence_witness :
  Forall (fun token => In token (IGNORE_WORDS (globals (overlapping_state true))))
         (words_of (py "No")) /\
  run (on_message (py "No")) (overlapping_state true) = Some (py "No") /\
  Classify (py "No") (overlapping_state true) = Some (HardInterrupt (py "No")).
Proof.
  split.
  - vm_compute. constructor; [now left | constructor].
  - apply (@interrupt_precedence ascii_runtime (py "No") (py "no")
             (overlapping_state true)).
    + reflexivity.
    + simpl. now left.
    + exists [], []. reflexivity.
Defined.

Lemma soft_word_ignore_witness :
  run (on_message (py " Yeah  OKAY ")) (state_with true) = None /\
  Classify (py " Yeah  OKAY ") (state_with true) = Some Ignore.
Proof.
  apply (@soft_word_ignore ascii_runtime (py " Yeah  OKAY ") (state_with true)).
  - reflexivity.
  - vm_compute. discriminate.
  - vm_compute. constructor; [now left|].
    constructor; [right; right; now left | constructor].
  - intros word Hin Hsub.
    assert (H : contains_interrupt default_INTERRUPT_WORDS
                  (text_of (py " Yeah  OKAY ")) = true)
      by (apply contains_interrupt_spec; now exists word).
    vm_compute in H. discriminate.
Defined.

Lemma semantic_interrupt_witness :
  run (on_message (py "what time is the meeting tomorrow")) (state_with true)
  = Some (py "what time is the meeting tomorrow") /\
  Classify (py "what time is the meeting tomorrow") (state_with true)
  = Some (SemanticInterrupt (py "what time is the meeting tomorrow")).
Proof.
  apply (@semantic_interrupt ascii_runtime
           (py "what time is the meeting tomorrow") (state_with true)).
  - reflexivity.
  - intros word Hin Hsub.
    assert (H : contains_interrupt default_INTERRUPT_WORDS
                  (text_of (py "what time is the meeting tomorrow")) = true)
      by (apply contains_interrupt_spec; now exists word).
    vm_compute in H. discriminate.
  - intros Hall.
    assert (H : only_soft_words default_IGNORE_WORDS
                  (words_of (py "what time is the meeting tomorrow")) = true)
      by (apply only_soft_words_spec; split; [vm_compute; discriminate | exact Hall]).
    vm_compute in H. discriminate.
Defined.

(** Blank and empty messages have no token, and are forwarded in both
    states. *)
Lemma empty_input_not_ignored :
  words_of (py "   ") = [] /\
  Classify (py "   ") (state_with true) = Some (SemanticInterrupt (py "   ")) /\
  Classify (py "   ") (state_with true) <> Some Ignore /\
  Classify (py "   ") (state_with false) = Some (PassThrough (py "   ")) /\
  Classify (py "   ") (state_with false) <> Some Ignore /\
  run (on_message (py "")) (state_with true) = Some (py "").
Proof. repeat split; try reflexivity; vm_compute; discriminate. Qed.

Lemma empty_input_forwarded_witness :
  words_of (py "   ") = [] /\
  run (on_message (py "   ")) (state_with true) = Some (py "   ") /\
  Classify (py "   ") (state_with true) = Some (SemanticInterrupt (py "   ")).
Proof.
  split; [reflexivity|].
  apply (@empty_input_forwarded ascii_runtime (py "   ") (state_with true)).
  reflexivity.
Defined.


(** An entry is compared with the lowercased text as it stands: with
    ["No"] on both lists, the message ["No"] matches neither. *)
Example ex_uppercase_entry :
  Classify (py "No") (configured true [py "No"] [py "No"])
  = Some (SemanticInterrupt (py "No")).
Proof. reflexivity. Qed.

(** The same globals, reached directly and through three lifecycle
    calls. *)
Lemma classification_deterministic_witness :
  trace (state_with true) <> trace (state_after [Enter; ResponseComplete; Enter]) /\
  run (on_message (py "hold on a second")) (state_with true)
  = run (on_message (py "hold on a second"))
        (state_after [Enter; ResponseComplete; Enter]) /\
  Classify (py "hold on a second") (state_with true)
  = Classify (py "hold on a second") (state_after [Enter; ResponseComplete; Enter]).
Proof.
  split; [vm_compute; discriminate|].
  apply (@classification_deterministic ascii_runtime (py "hold on a second")
           (state_with true) (state_after [Enter; ResponseComplete; Enter]));
    reflexivity.
Defined.

(** The text tested is ["stop"]; what is forwarded is the message. *)
Lemma forwarded_fragment_verbatim_witness :
  text_of (py "  STOP  ") = py "stop" /\
  py "  STOP  " = py "  STOP  " /\
  run (on_message (py "  STOP  ")) (state_with true) = Some (py "  STOP  ").
Proof.
  split; [reflexivity|].
  apply (@forwarded_fragment_verbatim ascii_runtime (py "  STOP  ") (py "  STOP  ")
           (state_with true) (HardInterrupt (py "  STOP  "))).
  - reflexivity.
  - right; left; reflexivity.
Defined.

(** * Further properties of the hook *)

(** ** Substrings and tokens *)

Lemma substring_trans (a b c : str) :
  substring a b -> substring b c -> substring a c.
Proof.
  intros (p1 & q1 & ->) (p2 & q2 & ->).
  exists (p2 ++ p1), (q1 ++ q2). now rewrite <- !app_assoc.
Qed.

Lemma substring_empty (text : str) : substring [] text.
Proof. now exists [], text. Qed.

Section TokenFacts.
Context {rt : StrRuntime}.

Lemma split_from_lstrip (s : str) : split_from [] (lstrip s) = split_from [] s.
Proof.
  induction s as [|c s IH]; simpl; [reflexivity|].
  destruct (isspace c) eqn:Hc; [assumption|].
  simpl. now rewrite Hc.
Qed.

Lemma split_from_rstrip (tok s : str) :
  split_from tok (rstrip s) = split_from tok s.
Proof.
  revert tok; induction s as [|c s IH]; intros tok; [reflexivity|].
  cbn [rstrip]. destruct (rstrip s) as [|d r] eqn:R.
  - destruct (isspace c) eqn:Hc.
    + cbn [split_from]. rewrite Hc.
      destruct tok; rewrite <- IH; reflexivity.
    + cbn [split_from]. rewrite Hc, <- IH. reflexivity.
  - cbn [split_from]. destruct (isspace c) eqn:Hc.
    + destruct tok; now rewrite <- IH.
    + now rewrite <- IH.
Qed.

Lemma split_strip (s : str) : split (strip s) = split s.
Proof. unfold split, strip. now rewrite split_from_rstrip, split_from_lstrip. Qed.

(** Every token occurs in the text it was cut from. *)
Lemma split_from_substring (tok s w : str) :
  In w (split_from tok s) -> substring w (rev tok ++ s).
Proof.
  revert tok; induction s as [|c s IH]; intros tok; simpl.
  - destruct tok as [|x tok]; simpl; [tauto|].
    intros [<- | []]. exists [], []. now rewrite !app_nil_r.
  - destruct (isspace c) eqn:Hc.
    + destruct tok as [|x tok].
      * intros H. destruct (IH [] H) as (p & q & E). simpl in E.
        exists (c :: p), q. simpl. now rewrite E.
      * intros [<- | H].
        -- now exists [], (c :: s).
        -- destruct (IH [] H) as (p & q & E). simpl in E.
           exists (rev (x :: tok) ++ c :: p), q.
           rewrite E, <- !app_assoc. reflexivity.
    + intros H. destruct (IH (c :: tok) H) as (p & q & E).
      exists p, q. rewrite <- E. simpl. now rewrite <- app_assoc.
Qed.

Lemma split_substring (s w : str) : In w (split s) -> substring w s.
Proof. intros H. exact (split_from_substring [] s w H). Qed.

(** A token is never equal to a word that is empty or has a blank. *)
Lemma token_not_blank_word (s tok w : str) :
  In tok (split s) ->
  w = [] \/ existsb isspace w = true ->
  str_eqb tok w = false.
Proof.
  intros Hin Hw.
  pose proof (split_tokens s) as Hall. rewrite Forall_forall in Hall.
  destruct (Hall tok Hin) as [Hne Hnb].
  destruct (str_eqb tok w) eqn:E; [|reflexivity].
  apply str_eqb_eq in E. subst w.
  destruct Hw as [-> | Hw]; [contradiction|].
  apply existsb_exists in Hw as (c & Hc & Hsp).
  rewrite forallb_forall in Hnb. specialize (Hnb c Hc).
  rewrite Hsp in Hnb. discriminate.
Qed.

End TokenFacts.

Lemma forallb_agree {A} (f g : A -> bool) (l : list A) :
  (forall x, In x l -> f x = g x) -> forallb f l = forallb g l.
Proof.
  induction l as [|x l IH]; simpl; intros H; [reflexivity|].
  rewrite (H x (or_introl eq_refl)), IH; auto.
Qed.

Section HookProperties.
Context {rt : StrRuntime}.

Lemma contains_interrupt_same (it1 it2 : list str) (text : str) :
  (forall w, In w it1 -> In w it2) ->
  contains_interrupt it1 text = true -> contains_interrupt it2 text = true.
Proof.
  intros Hincl H. apply contains_interrupt_spec in H as (w & Hin & Hsub).
  apply contains_interrupt_spec. exists w. auto.
Qed.

Lemma only_soft_words_same (ig1 ig2 : list str) (words : list str) :
  (forall w, In w ig1 -> In w ig2) ->
  only_soft_words ig1 words = true -> only_soft_words ig2 words = true.
Proof.
  intros Hincl H. apply only_soft_words_spec in H as [Hne Hall].
  apply only_soft_words_spec. split; [assumption|].
  rewrite Forall_forall in *. auto.
Qed.

(** X1.  The hook returns [None] exactly when the agent is speaking,
    the message has at least one token, every token is an entry of
    [IGNORE_WORDS], and no entry of [INTERRUPT_WORDS] occurs in the
    text; whenever it does not return [None], it returns the message it
    was given. *)
Theorem dropped_iff (message : str) (st : State) :
  (run (on_message message) st = None <->
   agent_is_speaking (globals st) = true /\
   words_of message <> [] /\
   Forall (fun token => In token (IGNORE_WORDS (globals st))) (words_of message) /\
   (forall word, In word (INTERRUPT_WORDS (globals st)) ->
                 ~ substring word (text_of message))) /\
  (run (on_message message) st = None \/
   run (on_message message) st = Some message).
Proof.
  rewrite run_on_message. split; [split|].
  - destruct (agent_is_speaking (globals st)); [|discriminate].
    destruct (contains_interrupt _ _) eqn:Hci; [discriminate|].
    destruct (only_soft_words _ _) eqn:Hos; [|discriminate].
    intros _. apply only_soft_words_spec in Hos as [Hne Hall].
    repeat split; try assumption.
    intros word Hin Hsub.
    assert (contains_interrupt (INTERRUPT_WORDS (globals st)) (text_of message) = true)
      by (apply contains_interrupt_spec; now exists word).
    congruence.
  - intros (-> & Hne & Hall & Hno).
    rewrite (contains_interrupt_false _ Hno).
    replace (only_soft_words _ _) with true; [reflexivity|].
    symmetry. apply only_soft_words_spec. now split.
  - destruct (_ && _ && _); [now left | now right].
Qed.

(** X2.  The decision depends on the message only through its
    lowercased, stripped text: two messages with the same text get the
    same kind of decision, and one is dropped exactly when the other
    is. *)
Theorem same_text_same_kind (m1 m2 : str) (st : State) :
  text_of m1 = text_of m2 ->
  option_map kind (Classify m1 st) = option_map kind (Classify m2 st) /\
  (run (on_message m1) st = None <-> run (on_message m2) st = None).
Proof.
  intros Htext. rewrite !Classify_unfold, !run_on_message.
  unfold words_of. rewrite Htext.
  destruct (agent_is_speaking (globals st)), (contains_interrupt _ _),
           (only_soft_words _ _); simpl; split; try reflexivity;
    split; intros H; try discriminate; reflexivity.
Qed.

(** X3.  A hard interrupt survives anything said around it: if a
    message is a hard interrupt, so is every message whose text contains
    the text of the first. *)
Theorem hard_interrupt_extends (m1 m2 : str) (st : State) :
  Classify m1 st = Some (HardInterrupt m1) ->
  substring (text_of m1) (text_of m2) ->
  Classify m2 st = Some (HardInterrupt m2).
Proof.
  rewrite !Classify_unfold. intros H Hsub.
  destruct (agent_is_speaking (globals st)); [|discriminate].
  destruct (contains_interrupt _ (text_of m1)) eqn:Hci.
  - apply contains_interrupt_spec in Hci as (w & Hin & Hw).
    replace (contains_interrupt _ (text_of m2)) with true; [reflexivity|].
    symmetry. apply contains_interrupt_spec. exists w.
    split; [assumption | exact (substring_trans Hw Hsub)].
  - destruct (only_soft_words _ _); discriminate.
Qed.

(** X4.  While the agent is speaking, a message one of whose tokens is
    an entry of [INTERRUPT_WORDS] is a hard interrupt. *)
Theorem interrupt_token_is_hard (message token : str) (st : State) :
  agent_is_speaking (globals st) = true ->
  In token (words_of message) ->
  In token (INTERRUPT_WORDS (globals st)) ->
  run (on_message message) st = Some message /\
  Classify message st = Some (HardInterrupt message).
Proof.
  intros Hspeaking Htok Hin.
  assert (Hci : contains_interrupt (INTERRUPT_WORDS (globals st)) (text_of message) = true).
  { apply contains_interrupt_spec. exists token.
    split; [assumption | now apply split_substring]. }
  rewrite run_on_message, Classify_unfold, Hspeaking, Hci. now split.
Qed.

(** X5.  The tokens are those of the lowercased message: stripping it
    first makes no difference to [words]. *)
Theorem words_ignore_strip (message : str) :
  words_of message = split (lower message).
Proof. unfold words_of, text_of. apply split_strip. Qed.

(** X6.  [text] is the lowercased message with exactly its leading and
    trailing blanks removed: what is cut off on either side is blank,
    and [text] neither starts nor ends with a blank. *)
Theorem text_of_spec (message : str) :
  exists leading trailing,
    lower message = leading ++ text_of message ++ trailing /\
    forallb isspace leading = true /\
    forallb isspace trailing = true /\
    (forall c rest, text_of message = c :: rest -> isspace c = false) /\
    (forall c rest, text_of message = rest ++ [c] -> isspace c = false).
Proof.
  unfold text_of.
  destruct (lstrip_spec (lower message)) as (leading & E1 & B1).
  destruct (rstrip_spec (lstrip (lower message))) as (trailing & E2 & B2).
  exists leading, trailing. repeat split; try assumption.
  - unfold strip. rewrite <- E2. exact E1.
  - intros c rest H. exact (strip_head _ H).
  - intros c rest H. unfold strip in H. eapply rstrip_last; exact H.
Qed.

(** X7.  An entry of [IGNORE_WORDS] that is empty or has a blank in it
    never matches a token: with or without it, the hook returns the
    same value and takes the same decision. *)
Theorem blank_ignore_word_dead
    (message word : str) (speaking : bool) (ignore_words interrupt_words : list str)
    (t : list Effect) :
  word = [] \/ existsb isspace word = true ->
  run (on_message message)
      (mkState (mkGlobals speaking (word :: ignore_words) interrupt_words) t)
  = run (on_message message)
        (mkState (mkGlobals speaking ignore_words interrupt_words) t) /\
  Classify message
      (mkState (mkGlobals speaking (word :: ignore_words) interrupt_words) t)
  = Classify message
        (mkState (mkGlobals speaking ignore_words interrupt_words) t).
Proof.
  intros Hword.
  assert (Hos : only_soft_words (word :: ignore_words) (words_of message)
                = only_soft_words ignore_words (words_of message)).
  { unfold only_soft_words. f_equal. apply forallb_agree.
    intros tok Htok. unfold list_contains. cbn [existsb].
    unfold words_of in Htok.
    now rewrite (token_not_blank_word _ _ Htok Hword). }
  rewrite !run_on_message, !Classify_unfold. simpl. rewrite Hos. now split.
Qed.

(** X8.  With the empty string among [INTERRUPT_WORDS], every message
    is a hard interrupt while the agent is speaking, since the empty
    string occurs in every text. *)
Theorem empty_interrupt_word (message : str) (st : State) :
  agent_is_speaking (globals st) = true ->
  In [] (INTERRUPT_WORDS (globals st)) ->
  run (on_message message) st = Some message /\
  Classify message st = Some (HardInterrupt message).
Proof.
  intros Hspeaking Hin.
  assert (Hci : contains_interrupt (INTERRUPT_WORDS (globals st)) (text_of message) = true).
  { apply contains_interrupt_spec. exists []. split; [assumption|].
    apply substring_empty. }
  rewrite run_on_message, Classify_unfold, Hspeaking, Hci. now split.
Qed.

(** X9.  Only the membership of the two word lists matters, not the
    order or the repetitions of their entries. *)
Theorem word_lists_as_sets
    (message : str) (speaking : bool)
    (ignore1 ignore2 interrupt1 interrupt2 : list str) (t1 t2 : list Effect) :
  (forall w, In w ignore1 <-> In w ignore2) ->
  (forall w, In w interrupt1 <-> In w interrupt2) ->
  run (on_message message) (mkState (mkGlobals speaking ignore1 interrupt1) t1)
  = run (on_message message) (mkState (mkGlobals speaking ignore2 interrupt2) t2) /\
  Classify message (mkState (mkGlobals speaking ignore1 interrupt1) t1)
  = Classify message (mkState (mkGlobals speaking ignore2 interrupt2) t2).
Proof.
  intros Hig Hit.
  assert (Hci : contains_interrupt interrupt1 (text_of message)
                = contains_interrupt interrupt2 (text_of message)).
  { apply Bool.eq_iff_eq_true.
    split; apply contains_interrupt_same; intros w; apply Hit. }
  assert (Hos : only_soft_words ignore1 (words_of message)
                = only_soft_words ignore2 (words_of message)).
  { apply Bool.eq_iff_eq_true.
    split; apply only_soft_words_same; intros w; apply Hig. }
  rewrite !run_on_message, !Classify_unfold. simpl. rewrite Hci, Hos. now split.
Qed.

(** X10.  Adding entries to [INTERRUPT_WORDS] never undoes a hard
    interrupt. *)
Theorem more_interrupt_words
    (message : str) (speaking : bool)
    (ignore_words interrupt1 interrupt2 : list str) (t : list Effect) :
  incl interrupt1 interrupt2 ->
  Classify message (mkState (mkGlobals speaking ignore_words interrupt1) t)
  = Some (HardInterrupt message) ->
  Classify message (mkState (mkGlobals speaking ignore_words interrupt2) t)
  = Some (HardInterrupt message).
Proof.
  intros Hincl. rewrite !Classify_unfold. simpl.
  destruct speaking; [|discriminate].
  destruct (contains_interrupt interrupt1 _) eqn:Hci.
  - apply contains_interrupt_same with (it2 := interrupt2) in Hci;
      [now rewrite Hci | exact Hincl].
  - destruct (only_soft_words _ _); discriminate.
Qed.

(** X11.  Adding entries to [IGNORE_WORDS] never makes the hook forward
    a message it dropped. *)
Theorem more_ignore_words
    (message : str) (speaking : bool)
    (ignore1 ignore2 interrupt_words : list str) (t : list Effect) :
  incl ignore1 ignore2 ->
  run (on_message message) (mkState (mkGlobals speaking ignore1 interrupt_words) t)
  = None ->
  run (on_message message) (mkState (mkGlobals speaking ignore2 interrupt_words) t)
  = None.
Proof.
  intros Hincl. rewrite !run_on_message. simpl.
  destruct speaking; [|discriminate].
  destruct (contains_interrupt _ _); [discriminate|].
  destruct (only_soft_words ignore1 _) eqn:Hos; [|discriminate].
  apply only_soft_words_same with (ig2 := ignore2) in Hos;
    [now rewrite Hos | exact Hincl].
Qed.

End HookProperties.

(** ** Overlapping word lists *)

Section Overlap.
Context {rt : StrRuntime}.


End Overlap.

(** ** Sessions *)

Lemma count_replies_app (t1 t2 : list Effect) :
  count_replies (t1 ++ t2) = count_replies t1 + count_replies t2.
Proof.
  induction t1 as [|[r|] t1 IH]; simpl; [reflexivity | assumption | now rewrite IH].
Qed.

Section SessionProperties.
Context {rt : StrRuntime}.

Lemma session_app (cs1 cs2 : list Call) (st : State) :
  session (cs1 ++ cs2) st = session cs2 (session cs1 st).
Proof. revert st; induction cs1 as [|c cs1 IH]; intros st; simpl; auto. Qed.

Lemma exec_handle_message (message : str) (st : State) :
  exec (handle (OnMessage message)) st = exec (on_message message) st.
Proof.
  unfold exec, handle, bind, ret. now destruct (on_message message st).
Qed.

(** What one call does to the globals and to the trace. *)
Lemma exec_handle (c : Call) (st : State) :
  IGNORE_WORDS (globals (exec (handle c) st)) = IGNORE_WORDS (globals st) /\
  INTERRUPT_WORDS (globals (exec (handle c) st)) = INTERRUPT_WORDS (globals st) /\
  agent_is_speaking (globals (exec (handle c) st))
  = match c with
    | OnEnter => true
    | OnResponseComplete => false
    | _ => agent_is_speaking (globals st)
    end /\
  exists added,
    trace (exec (handle c) st) = trace st ++ added /\
    count_replies added = match c with OnEnter => 1 | _ => 0 end.
Proof.
  destruct c as [| |message|location latitude longitude].
  - repeat split. exists [LoggerInfo AgentStartedSpeaking; GenerateReply].
    split; [|reflexivity]. simpl. now rewrite <- app_assoc.
  - repeat split. now exists [LoggerInfo AgentFinishedSpeaking].
  - rewrite exec_handle_message. unfold exec. rewrite on_message_unfold. simpl.
    repeat split. eexists [_; _]. rewrite <- app_assoc. now split.
  - repeat split. now exists [LoggerInfo (LookingUpWeather location)].
Qed.

(** X12.  No sequence of handler calls changes the two word lists. *)
Theorem session_word_lists (cs : list Call) (st : State) :
  IGNORE_WORDS (globals (session cs st)) = IGNORE_WORDS (globals st) /\
  INTERRUPT_WORDS (globals (session cs st)) = INTERRUPT_WORDS (globals st).
Proof.
  revert st; induction cs as [|c cs IH]; intros st; simpl; [now split|].
  destruct (IH (exec (handle c) st)) as [-> ->].
  destruct (exec_handle c st) as (-> & -> & _). now split.
Qed.

(** X13.  The flag is what the last lifecycle call made it, however many
    messages and tool calls came after: true after [on_enter], false
    after [on_response_complete], and unchanged by a run of calls with no
    lifecycle call in it. *)
Theorem flag_follows_last_lifecycle (before after : list Call) (st : State) :
  forallb (fun c => negb (is_lifecycle c)) after = true ->
  agent_is_speaking (globals (session after st))
  = agent_is_speaking (globals st) /\
  agent_is_speaking (globals (session (before ++ OnEnter :: after) st)) = true /\
  agent_is_speaking (globals (session (before ++ OnResponseComplete :: after) st))
  = false.
Proof.
  intros Hafter.
  assert (Hkeep : forall st',
             agent_is_speaking (globals (session after st'))
             = agent_is_speaking (globals st')).
  { induction after as [|c after IH]; intros st'; simpl; [reflexivity|].
    simpl in Hafter. apply andb_true_iff in Hafter as [Hc Hrest].
    rewrite (IH Hrest).
    destruct (exec_handle c st') as (_ & _ & -> & _).
    destruct c; simpl in Hc; try discriminate; reflexivity. }
  split; [apply Hkeep|].
  rewrite !session_app. cbn [session]. rewrite !Hkeep. now split.
Qed.

(** X14.  The trace only grows, and [generate_reply] is called once for
    each [on_enter] of the session and by no other handler. *)
Theorem replies_count_enters (cs : list Call) (st : State) :
  exists added,
    trace (session cs st) = trace st ++ added /\
    count_replies added = count_enters cs.
Proof.
  revert st; induction cs as [|c cs IH]; intros st; simpl.
  - exists []. now rewrite app_nil_r.
  - destruct (IH (exec (handle c) st)) as (added' & -> & Hcount).
    destruct (exec_handle c st) as (_ & _ & _ & added & -> & Hc).
    exists (added ++ added'). split; [now rewrite app_assoc|].
    rewrite count_replies_app, Hc, Hcount. now destruct c.
Qed.

End SessionProperties.

(** ** Concrete runs of the further properties *)

Lemma same_text_same_kind_witness :
  option_map kind (Classify (py "  STOP ") (state_with true))
  = option_map kind (Classify (py "stop") (state_with true)) /\
  (run (on_message (py "  STOP ")) (state_with true) = None <->
   run (on_message (py "stop")) (state_with true) = None).
Proof.
  apply (@same_text_same_kind ascii_runtime (py "  STOP ") (py "stop")
           (state_with true)).
  reflexivity.
Defined.

Lemma hard_interrupt_extends_witness :
  Classify (py "please wait a moment") (state_with true)
  = Some (HardInterrupt (py "please wait a moment")).
Proof.
  apply (@hard_interrupt_extends ascii_runtime (py "Wait") (py "please wait a moment")
           (state_with true)).
  - reflexivity.
  - exists (py "please "), (py " a moment"). reflexivity.
Defined.

Lemma interrupt_token_is_hard_witness :
  run (on_message (py "okay STOP")) (state_with true) = Some (py "okay STOP") /\
  Classify (py "okay STOP") (state_with true)
  = Some (HardInterrupt (py "okay STOP")).
Proof.
  apply (@interrupt_token_is_hard ascii_runtime (py "okay STOP") (py "stop")
           (state_with true)).
  - reflexivity.
  - vm_compute. right; now left.
  - vm_compute. now left.
Defined.

Lemma blank_ignore_word_dead_witness :
  Classify (py "oh yeah") (configured true [py "oh yeah"; py "yeah"] [py "stop"])
  = Classify (py "oh yeah") (configured true [py "yeah"] [py "stop"]) /\
  Classify (py "oh yeah") (configured true [py "yeah"] [py "stop"])
  = Some (SemanticInterrupt (py "oh yeah")).
Proof.
  split; [|reflexivity].
  apply (@blank_ignore_word_dead ascii_runtime (py "oh yeah") (py "oh yeah") true
           [py "yeah"] [py "stop"] []).
  right. reflexivity.
Defined.

Lemma empty_interrupt_word_witness :
  run (on_message (py "yeah")) (configured true [py "yeah"] [py ""])
  = Some (py "yeah") /\
  Classify (py "yeah") (configured true [py "yeah"] [py ""])
  = Some (HardInterrupt (py "yeah")).
Proof.
  apply (@empty_interrupt_word ascii_runtime (py "yeah")
           (configured true [py "yeah"] [py ""])).
  - reflexivity.
  - simpl. now left.
Defined.

Lemma word_lists_as_sets_witness :
  run (on_message (py "ok yeah"))
      (configured true [py "yeah"; py "ok"] [py "stop"; py "no"])
  = run (on_message (py "ok yeah"))
        (configured true [py "ok"; py "yeah"; py "ok"] [py "no"; py "stop"; py "no"]) /\
  Classify (py "ok yeah")
      (configured true [py "yeah"; py "ok"] [py "stop"; py "no"])
  = Classify (py "ok yeah")
      (configured true [py "ok"; py "yeah"; py "ok"] [py "no"; py "stop"; py "no"]).
Proof.
  apply (@word_lists_as_sets ascii_runtime (py "ok yeah") true
           [py "yeah"; py "ok"] [py "ok"; py "yeah"; py "ok"]
           [py "stop"; py "no"] [py "no"; py "stop"; py "no"] [] []);
    intros w; simpl; tauto.
Defined.

Lemma more_interrupt_words_witness :
  Classify (py "wait") (configured true [py "yeah"] [py "stop"; py "wait"])
  = Some (HardInterrupt (py "wait")).
Proof.
  apply (@more_interrupt_words ascii_runtime (py "wait") true [py "yeah"]
           [py "wait"] [py "stop"; py "wait"] []).
  - intros w [<- | []]. simpl. right; now left.
  - reflexivity.
Defined.

Lemma more_ignore_words_witness :
  run (on_message (py "yeah")) (configured true [py "ok"; py "yeah"] [py "stop"])
  = None.
Proof.
  apply (@more_ignore_words ascii_runtime (py "yeah") true
           [py "yeah"] [py "ok"; py "yeah"] [py "stop"] []).
  - intros w [<- | []]. simpl. right; now left.
  - reflexivity.
Defined.

Lemma flag_follows_last_lifecycle_witness :
  agent_is_speaking
    (globals (session [OnMessage (py "hello"); LookupWeather (py "Oslo") (py "59.9") (py "10.7")]
                (state_with true)))
  = agent_is_speaking (globals (state_with true)) /\
  agent_is_speaking
    (globals (session ([OnResponseComplete] ++ OnEnter ::
                       [OnMessage (py "hello");
                        LookupWeather (py "Oslo") (py "59.9") (py "10.7")])
                (state_with true)))
  = true /\
  agent_is_speaking
    (globals (session ([OnResponseComplete] ++ OnResponseComplete ::
                       [OnMessage (py "hello");
                        LookupWeather (py "Oslo") (py "59.9") (py "10.7")])
                (state_with true)))
  = false.
Proof.
  apply (@flag_follows_last_lifecycle ascii_runtime [OnResponseComplete]
           [OnMessage (py "hello"); LookupWeather (py "Oslo") (py "59.9") (py "10.7")]
           (state_with true)).
  reflexivity.
Defined.
